(** * cookoo: the Getter abstraction, the value store and the chain executor

    A shallow embedding of [getter.go] (package [cookoo]) together with the
    parts of the package that the repository's tests and tutorials exercise
    (the context's value store and the router), followed by the properties
    established about them. *)

From Stdlib Require Import ZArith Floats.SpecFloat.
From stdpp Require Import base option list strings gmap fin_maps.

(** ** Go values held in an [interface{}] *)

(** Heap addresses of aggregates and of context objects. *)
Abbreviation loc := nat (only parsing).

(** The dynamic types that the typed accessors of [getter.go] assert, plus
    the pointer type the tests store ([*LameStruct]). *)
Inductive GoType :=
| TString | TBool | TInt | TInt32 | TInt64 | TUint64 | TFloat64 | TPtr.

(** [ContextValue] is [interface{}]: either the nil interface or a value
    tagged with its dynamic type. Integers carry their mathematical value
    (the accessors never compute with them); a [float64] is its IEEE 754
    datum. *)
Inductive ContextValue :=
| VNil
| VString (s : string)
| VBool (b : bool)
| VInt (n : Z)
| VInt32 (n : Z)
| VInt64 (n : Z)
| VUint64 (n : Z)
| VFloat64 (f : spec_float)
| VPtr (l : loc).

Definition dyn_type (v : ContextValue) : option GoType :=
  match v with
  | VNil => None
  | VString _ => Some TString
  | VBool _ => Some TBool
  | VInt _ => Some TInt
  | VInt32 _ => Some TInt32
  | VInt64 _ => Some TInt64
  | VUint64 _ => Some TUint64
  | VFloat64 _ => Some TFloat64
  | VPtr _ => Some TPtr
  end.

(** [ret == nil] on an interface value. *)
Definition is_nil (v : ContextValue) : bool :=
  match v with VNil => true | _ => false end.

(** [reflect.ValueOf(ret).IsValid()]: [ValueOf] of the nil interface is the
    zero [reflect.Value], the only one that is not valid. *)
Definition reflect_IsValid (v : ContextValue) : bool :=
  match v with VNil => false | _ => true end.

(** The float64 zero value, [0]. *)
Definition float_zero : spec_float := S754_zero false.

(** *** Type assertions *)

(** What [v.(T)] extracts when the dynamic type of [v] is [T]. *)
Definition as_string (v : ContextValue) : option string :=
  match v with VString s => Some s | _ => None end.
Definition as_bool (v : ContextValue) : option bool :=
  match v with VBool b => Some b | _ => None end.
Definition as_int (v : ContextValue) : option Z :=
  match v with VInt n => Some n | _ => None end.
Definition as_int32 (v : ContextValue) : option Z :=
  match v with VInt32 n => Some n | _ => None end.
Definition as_int64 (v : ContextValue) : option Z :=
  match v with VInt64 n => Some n | _ => None end.
Definition as_uint64 (v : ContextValue) : option Z :=
  match v with VUint64 n => Some n | _ => None end.
Definition as_float64 (v : ContextValue) : option spec_float :=
  match v with VFloat64 f => Some f | _ => None end.

(** A run-time panic. The only one [getter.go] can raise is the failed
    interface conversion of a single-valued type assertion; the other two
    belong to the heap operations the tests perform (an index expression out
    of range, a dereference of an address that holds no object). *)
Inductive panic :=
| InterfaceConversion (have : option GoType) (want : GoType)
| IndexOutOfRange (index length : nat)
| InvalidAddress (l : loc).

Inductive result (A : Type) :=
| Ok (a : A)
| Panic (p : panic).
Arguments Ok {A} a.
Arguments Panic {A} p.

(** [v.(T)], single-valued form: panics unless the dynamic type is [T]. *)
Definition assert1 {A} (want : GoType) (proj : ContextValue -> option A)
    (v : ContextValue) : result A :=
  match proj v with
  | Some a => Ok a
  | None => Panic (InterfaceConversion (dyn_type v) want)
  end.

(** [x, ok := v.(T)], comma-ok form: never panics, yields the zero value of
    [T] and [false] on a mismatch. *)
Definition assert2 {A} (zero : A) (proj : ContextValue -> option A)
    (v : ContextValue) : A * bool :=
  match proj v with
  | Some a => (a, true)
  | None => (zero, false)
  end.

(** ** getter.go *)

(** [type Getter interface { Get(string, interface{}) ContextValue;
    Has(string) (ContextValue, bool) }]: a (non-nil) interface value is the
    method table closed over its receiver. *)
Record Getter := {
  Get : string -> ContextValue -> ContextValue;
  Has : string -> ContextValue * bool
}.

(** [KeyValueDatasource], the interface that [GettableDatasource] embeds;
    only its [Value] method is called. *)
Record KeyValueDatasource := {
  Value : string -> ContextValue
}.

(** [func (g *GettableDatasource) Get(key string, defaultVal interface{})] *)
Definition GettableDatasource_Get (g : KeyValueDatasource)
    (key : string) (defaultVal : ContextValue) : ContextValue :=
  let ret := Value g key in
  if is_nil ret || negb (reflect_IsValid ret) then defaultVal else ret.

(** [func (g *GettableDatasource) Has(key string) (ContextValue, bool)] *)
Definition GettableDatasource_Has (g : KeyValueDatasource)
    (key : string) : ContextValue * bool :=
  let ret := Value g key in
  if is_nil ret || negb (reflect_IsValid ret) then (VNil, false) else (ret, true).

(** [&GettableDatasource{ds}] seen through the [Getter] interface. *)
Definition GettableDatasource (g : KeyValueDatasource) : Getter :=
  {| Get := GettableDatasource_Get g; Has := GettableDatasource_Has g |}.

(** [func (e *DefaultGetter) Get(name string, value interface{})] *)
Definition DefaultGetter_Get (val : ContextValue)
    (name : string) (value : ContextValue) : ContextValue := val.

(** [func (e *DefaultGetter) Has(name string) (ContextValue, bool)] *)
Definition DefaultGetter_Has (val : ContextValue)
    (name : string) : ContextValue * bool := (val, true).

(** [&DefaultGetter{val}] seen through the [Getter] interface. *)
Definition DefaultGetter (val : ContextValue) : Getter :=
  {| Get := DefaultGetter_Get val; Has := DefaultGetter_Has val |}.

(** *** Typed [Get] accessors: [source.Get(key, defaultValue).(T)] *)

Definition GetString (key defaultValue : string) (source : Getter) : result string :=
  assert1 TString as_string (Get source key (VString defaultValue)).

Definition GetBool (key : string) (defaultValue : bool) (source : Getter) : result bool :=
  assert1 TBool as_bool (Get source key (VBool defaultValue)).

Definition GetInt (key : string) (defaultValue : Z) (source : Getter) : result Z :=
  assert1 TInt as_int (Get source key (VInt defaultValue)).

Definition GetInt64 (key : string) (defaultValue : Z) (source : Getter) : result Z :=
  assert1 TInt64 as_int64 (Get source key (VInt64 defaultValue)).

Definition GetInt32 (key : string) (defaultValue : Z) (source : Getter) : result Z :=
  assert1 TInt32 as_int32 (Get source key (VInt32 defaultValue)).

Definition GetUint64 (key : string) (defaultVal : Z) (source : Getter) : result Z :=
  assert1 TUint64 as_uint64 (Get source key (VUint64 defaultVal)).

Definition GetFloat64 (key : string) (defaultVal : spec_float) (source : Getter)
    : result spec_float :=
  assert1 TFloat64 as_float64 (Get source key (VFloat64 defaultVal)).

(** *** Typed [Has] accessors

    Each follows the source statement by statement: [source.Has], the early
    return on [!ok], the comma-ok assertion, the early return on [!kk]. *)

Definition HasString (key : string) (source : Getter) : string * bool :=
  let '(v, ok) := Has source key in
  if negb ok then (""%string, ok)
  else
    let '(strval, kk) := assert2 "" as_string v in
    if negb kk then (""%string, kk) else (strval, kk).

Definition HasBool (key : string) (defaultValue : bool) (source : Getter) : bool * bool :=
  let '(v, ok) := Has source key in
  if negb ok then (false, ok)
  else
    let '(strval, kk) := assert2 false as_bool v in
    if negb kk then (false, kk) else (strval, kk).

Definition HasInt (key : string) (defaultValue : Z) (source : Getter) : Z * bool :=
  let '(v, ok) := Has source key in
  if negb ok then (0%Z, ok)
  else
    let '(val, kk) := assert2 0%Z as_int v in
    if negb kk then (0%Z, kk) else (val, kk).

Definition HasInt64 (key : string) (defaultValue : Z) (source : Getter) : Z * bool :=
  let '(v, ok) := Has source key in
  if negb ok then (0%Z, ok)
  else
    let '(val, kk) := assert2 0%Z as_int64 v in
    if negb kk then (0%Z, kk) else (val, kk).

Definition HasInt32 (key : string) (defaultValue : Z) (source : Getter) : Z * bool :=
  let '(v, ok) := Has source key in
  if negb ok then (0%Z, ok)
  else
    let '(val, kk) := assert2 0%Z as_int32 v in
    if negb kk then (0%Z, kk) else (val, kk).

Definition HasUint64 (key : string) (defaultVal : Z) (source : Getter) : Z * bool :=
  let '(v, ok) := Has source key in
  if negb ok then (0%Z, ok)
  else
    let '(val, kk) := assert2 0%Z as_uint64 v in
    if negb kk then (0%Z, kk) else (val, kk).

Definition HasFloat64 (key : string) (defaultVal : spec_float) (source : Getter)
    : spec_float * bool :=
  let '(v, ok) := Has source key in
  if negb ok then (float_zero, ok)
  else
    let '(val, kk) := assert2 float_zero as_float64 v in
    if negb kk then (float_zero, kk) else (val, kk).

(** *** [GetFromFirst]

    [for _, s := range sources { val, ok := s.Has(key); if ok { return val, s } }
     return defaultVal, &DefaultGetter{defaultVal}] *)
Fixpoint GetFromFirst (key : string) (defaultVal : ContextValue)
    (sources : list Getter) : ContextValue * Getter :=
  match sources with
  | [] => (defaultVal, DefaultGetter defaultVal)
  | s :: rest =>
      let '(val, ok) := Has s key in
      if ok then (val, s) else GetFromFirst key defaultVal rest
  end.

(** *** Vocabulary for the statements below *)

(** [source] reports [key] as found. *)
Definition has_key (source : Getter) (key : string) : bool := (Has source key).2.

(** No source in [gs] reports [key] as found. *)
Abbreviation all_miss key gs := (Forall (λ g : Getter, has_key g key = false) gs).

(** [source] stores [v] under [key]: [Has] finds it and [Get] returns it
    whatever default is supplied. *)
Definition stores (source : Getter) (key : string) (v : ContextValue) : Prop :=
  Has source key = (v, true) ∧ ∀ d, Get source key d = v.

(** The two implementations of [Getter] that [getter.go] defines. *)
Inductive source_getter : Getter -> Prop :=
| sg_datasource (g : KeyValueDatasource) : source_getter (GettableDatasource g)
| sg_default (val : ContextValue) : source_getter (DefaultGetter val).

(** ** The value store of a context

    [context.go] is exercised by the tests of the repository
    ([TestAddGet], [TestCopy]); contexts are objects on the heap, and so
    are the aggregates that stored pointers refer to. *)

(** [type LameStruct struct { stuff []string }], the aggregate of [TestCopy]. *)
Record LameStruct := {
  stuff : list string
}.

(** The heap: context objects (each one its table of top-level bindings) and
    aggregates, both by address. *)
Record Heap := {
  contexts : gmap loc (gmap string ContextValue);
  aggregates : gmap loc LameStruct
}.

Definition empty_heap : Heap := {| contexts := ∅; aggregates := ∅ |}.

(** Heap computations: a state monad over [Heap] in which a panic aborts. *)
Definition M (A : Type) : Type := Heap -> result (A * Heap).

Definition raise {A} (p : panic) : M A := fun _ => Panic p.

#[global] Instance M_ret : MRet M := fun A a h => Ok (a, h).

#[global] Instance M_bind : MBind M := fun A B k m h =>
  match m h with
  | Ok (a, h') => k a h'
  | Panic p => Panic p
  end.

Module ValueStore.

(** Allocate a context object holding the table [m] at a fresh address. *)
Definition alloc_table (m : gmap string ContextValue) : M loc :=
  fun h =>
    let c := fresh (dom (contexts h)) in
    Ok (c, {| contexts := <[c := m]> (contexts h); aggregates := aggregates h |}).

(** Modelled from the spec: [NewContext] of [context.go], absent from the
    sources; it allocates a context object with no binding. *)
Definition NewContext : M loc := alloc_table ∅.

(** The table of the context at address [c]. *)
Definition table (c : loc) : M (gmap string ContextValue) :=
  fun h =>
    match contexts h !! c with
    | Some m => Ok (m, h)
    | None => Panic (InvalidAddress c)
    end.

Definition set_table (c : loc) (m : gmap string ContextValue) : M unit :=
  fun h => Ok (tt, {| contexts := <[c := m]> (contexts h); aggregates := aggregates h |}).

(** Modelled from the spec: [Add] of [context.go], absent from the sources;
    [Add(key, value)] always succeeds and overwrites. *)
Definition Add (c : loc) (key : string) (value : ContextValue) : M unit :=
  m ← table c; set_table c (<[key := value]> m).

(** Modelled from the spec: [Remove] of [context.go], absent from the
    sources; removing an absent key is a no-op. *)
Definition Remove (c : loc) (key : string) : M unit :=
  m ← table c; set_table c (delete key m).

(** Modelled from the spec: [Has] of [context.go], absent from the sources;
    a presence test that never fails on a live context. *)
Definition Has (c : loc) (key : string) : M (ContextValue * bool) :=
  m ← table c;
  mret (match m !! key with Some v => (v, true) | None => (VNil, false) end).

(** Modelled from the spec: the one-argument [Get] of [context.go], absent
    from the sources; [None] is the not-found condition of an absent key. *)
Definition Get (c : loc) (key : string) : M (option ContextValue) :=
  m ← table c; mret (m !! key).

(** Modelled from the spec: [Len] of [context.go], absent from the sources;
    the number of top-level bindings. *)
Definition Len (c : loc) : M nat :=
  m ← table c; mret (size m).

(** Modelled from the spec: [Copy] of [context.go], absent from the sources;
    a new context object whose table is a shallow snapshot of the
    original's: the bindings are duplicated, the values are not (a stored
    pointer is copied as a pointer). The datasource and logger tables, which
    a copy carries by reference, hold no top-level binding and are left out. *)
Definition Copy (c : loc) : M loc :=
  m ← table c; alloc_table m.

(** [lame := new(LameStruct); lame.stuff = s] *)
Definition new_LameStruct (s : list string) : M loc :=
  fun h =>
    let p := fresh (dom (aggregates h)) in
    Ok (p, {| contexts := contexts h;
              aggregates := <[p := {| stuff := s |}]> (aggregates h) |}).

Definition deref (p : loc) : M LameStruct :=
  fun h =>
    match aggregates h !! p with
    | Some a => Ok (a, h)
    | None => Panic (InvalidAddress p)
    end.

Definition set_aggregate (p : loc) (a : LameStruct) : M unit :=
  fun h => Ok (tt, {| contexts := contexts h; aggregates := <[p := a]> (aggregates h) |}).

(** [p.stuff[i] = x]: an index expression, which panics out of range. *)
Definition set_stuff (p : loc) (i : nat) (x : string) : M unit :=
  a ← deref p;
  if decide (i < length (stuff a))
  then set_aggregate p {| stuff := <[i := x]> (stuff a) |}
  else raise (IndexOutOfRange i (length (stuff a))).

(** [p.stuff[i]] *)
Definition get_stuff (p : loc) (i : nat) : M string :=
  a ← deref p;
  match stuff a !! i with
  | Some x => mret x
  | None => raise (IndexOutOfRange i (length (stuff a)))
  end.

(** [c.Get(key)] asserted to be a pointer to a [LameStruct]. *)
Definition get_ptr (c : loc) (key : string) : M loc :=
  v ← Get c key;
  match v with
  | Some (VPtr p) => mret p
  | Some w => raise (InterfaceConversion (dyn_type w) TPtr)
  | None => raise (InterfaceConversion None TPtr)
  end.

(** Write element [i] of the aggregate reached through store [c] at [key]. *)
Definition mutate_through (c : loc) (key : string) (i : nat) (x : string) : M unit :=
  p ← get_ptr c key; set_stuff p i x.

(** Read element [i] of the aggregate reached through store [c] at [key]. *)
Definition read_through (c : loc) (key : string) (i : nat) : M string :=
  p ← get_ptr c key; get_stuff p i.

(** A top-level update of a store. *)
Inductive store_op :=
| OpAdd (c : loc) (key : string) (value : ContextValue)
| OpRemove (c : loc) (key : string).

Definition op_target (o : store_op) : loc :=
  match o with OpAdd c _ _ => c | OpRemove c _ => c end.

Definition run_op (o : store_op) : M unit :=
  match o with
  | OpAdd c key value => Add c key value
  | OpRemove c key => Remove c key
  end.

Fixpoint run_ops (os : list store_op) : M unit :=
  match os with
  | [] => mret tt
  | o :: rest => run_op o ;; run_ops rest
  end.

(** The effect of one update on the table of store [x]: its own updates
    apply, those aimed at another store do not. *)
Definition apply_op (x : loc) (o : store_op) (m : gmap string ContextValue)
    : gmap string ContextValue :=
  match o with
  | OpAdd c key value => if decide (c = x) then <[key := value]> m else m
  | OpRemove c key => if decide (c = x) then delete key m else m
  end.

Definition apply_own (x : loc) (os : list store_op) (m : gmap string ContextValue)
    : gmap string ContextValue :=
  foldl (λ m o, apply_op x o m) m os.

(** What an observer of store [c] sees at the top level: its bindings (hence
    its key set), if the store is live. *)
Definition bindings (c : loc) (h : Heap) : option (gmap string ContextValue) :=
  contexts h !! c.

Definition keys (c : loc) (h : Heap) : option (gset string) :=
  dom <$> bindings c h.

(** [TestCopy] of the test file: the values the test compares, in order
    ([c.Len()], [c2.Len()], [c2.Get("b")], [v1.stuff[1]]). *)
Definition TestCopy : M (nat * nat * option ContextValue * string) :=
  lame ← new_LameStruct ["O"; "Hai"];
  c ← NewContext;
  Add c "a" (VPtr lame) ;;
  Add c "b" (VString "This is the song that never ends") ;;
  c2 ← Copy c;
  Add c "c" (VInt 1234) ;;
  len_c ← Len c;
  len_c2 ← Len c2;
  Add c "b" (VString "FOO") ;;
  b2 ← Get c2 "b";
  set_stuff lame 1 "Noes" ;;
  v1 ← get_ptr c2 "a";
  s1 ← get_stuff v1 1;
  mret (len_c, len_c2, b2, s1).

End ValueStore.

(** ** The chain executor (router)

    [router.go] and [registry.go] are not among the sources; the tutorial
    shows their use ([registry.Route(...).Does(...).Using(...).From(...)],
    [type Command func(cxt Context, params *Params) (interface{}, Interrupt)]).
    One execution owns one context from start to finish, so the executor
    threads it as a value. *)

(** What a log sink has received: (prefix, message) pairs, oldest first. *)
Abbreviation LogEntries := (list (string * string)) (only parsing).

(** Modelled from the spec: the context of one execution, its value store
    and its registered loggers (the [Context] of [context.go], absent from
    the sources), each logger with what it has been sent. *)
Record Context := {
  values : gmap string ContextValue;
  loggers : gmap string LogEntries
}.

(** Modelled from the spec: [cxt.Add(key, value)] on the execution's
    store; it always succeeds and overwrites. *)
Definition Context_Add (key : string) (value : ContextValue) (c : Context) : Context :=
  {| values := <[key := value]> (values c); loggers := loggers c |}.

(** Modelled from the spec: [cxt.Log(prefix, msg)] fans the message out to
    every registered logger. *)
Definition Context_Log (prefix msg : string) (c : Context) : Context :=
  {| values := values c; loggers := (λ l, l ++ [(prefix, msg)]) <$> loggers c |}.

(** Modelled from the spec: the value store read through the [Getter]
    interface ([c.Get("route.Name", "unknown")] in the tutorial); [Has]
    reports presence, so a stored nil is found. *)
Definition Context_Get (c : Context) (key : string) (defaultVal : ContextValue)
    : ContextValue :=
  default defaultVal (values c !! key).

Definition Context_Has (c : Context) (key : string) : ContextValue * bool :=
  match values c !! key with
  | Some v => (v, true)
  | None => (VNil, false)
  end.

Definition Context_Getter (c : Context) : Getter :=
  {| Get := Context_Get c; Has := Context_Has c |}.

(** Modelled from the spec: the control signal an operation returns beside
    its result (the [Interrupt] of the tutorial; the router's source is
    absent). *)
Inductive Signal :=
| SigNone
| Stop
| Reroute (target : string)
| RecoverableError (err : string)
| FatalError (err : string).

(** The per-step parameter view. *)
Abbreviation Params := (gmap string ContextValue) (only parsing).

(** Modelled from the spec: the Params view of a step, itself a Getter. *)
Definition Params_Get (p : gmap string ContextValue) (key : string)
    (defaultVal : ContextValue) : ContextValue :=
  default defaultVal (p !! key).

Definition Params_Has (p : gmap string ContextValue) (key : string)
    : ContextValue * bool :=
  match p !! key with
  | Some v => (v, true)
  | None => (VNil, false)
  end.

Definition Params_Getter (p : gmap string ContextValue) : Getter :=
  {| Get := Params_Get p; Has := Params_Has p |}.

(** [type Command func(cxt Context, params *Params) (interface{}, Interrupt)].
    A command may act on the context it is given (it can log through it), so
    it also yields the context as it leaves it. *)
Definition Command : Type := Context -> Params -> Context * ContextValue * Signal.

(** Modelled from the spec: a source specifier names a source kind and a
    key within that source ([cxt:msg], [path:1], [post:foo]). *)
Inductive SourceKind := FromContext | FromPath | FromQuery | FromPost.

Record SourceSpec := {
  src_kind : SourceKind;
  src_key : string
}.

(** Modelled from the spec: a parameter binding is a parameter name, an
    ordered list of source specifiers and an optional default. *)
Record ParamBinding := {
  param_name : string;
  param_from : list SourceSpec;
  param_default : option ContextValue
}.

(** Modelled from the spec: a step is an operation reference (absent when
    the reference is invalid), an output-binding-name and its parameter
    bindings. *)
Record Step := {
  step_op : option Command;
  step_name : string;
  step_params : list ParamBinding
}.

(** Modelled from the spec: a route entry, its description and its ordered
    steps; the registry maps route identifiers to entries. *)
Record Route := {
  route_description : string;
  route_steps : list Step
}.

(** Modelled from the spec: the request-scoped sources the transport
    supplies, each a Getter. *)
Record Request := {
  req_path : Getter;
  req_query : Getter;
  req_post : Getter
}.

(** Modelled from the spec: a source specifier read as a Getter, the named
    source probed at the specifier's own key. *)
Definition keyed (g : Getter) (k : string) : Getter :=
  {| Get := fun _ d => Get g k d; Has := fun _ => Has g k |}.

Definition source_of (req : Request) (c : Context) (s : SourceSpec) : Getter :=
  keyed
    match src_kind s with
    | FromContext => Context_Getter c
    | FromPath => req_path req
    | FromQuery => req_query req
    | FromPost => req_post req
    end
    (src_key s).

(** Modelled from the spec: binding one parameter runs [GetFromFirst]
    against the ordered sources of the binding, with the static default (the
    absent value when there is none). *)
Definition resolve (req : Request) (c : Context) (b : ParamBinding) : ContextValue :=
  (GetFromFirst (param_name b) (default VNil (param_default b))
     (source_of req c <$> param_from b)).1.

(** Modelled from the spec: the Params view of a step, assembled binding by
    binding. *)
Definition bind_params (req : Request) (c : Context) (bs : list ParamBinding) : Params :=
  foldl (λ p b, <[param_name b := resolve req c b]> p) ∅ bs.

(** One invocation of an operation: the step (by its output name), the
    context and the parameters it was given. *)
Record Invocation := {
  inv_name : string;
  inv_cxt : Context;
  inv_params : Params
}.

(** The invocation of step [s] on context [c]: its parameters are bound
    against the live context. *)
Definition invocation (req : Request) (s : Step) (c : Context) : Invocation :=
  {| inv_name := step_name s; inv_cxt := c;
     inv_params := bind_params req c (step_params s) |}.

(** Modelled from the spec: how an execution ends. *)
Inductive Failure :=
| NotFound (what : string)
| Fatal (err : string)
| RerouteLimitExceeded.

Inductive Outcome :=
| HaltedOk
| HaltedError (e : Failure).

(** The result of an execution: how it ended, the context it left, and the
    operations it invoked, in order. *)
Record Run := {
  run_outcome : Outcome;
  run_cxt : Context;
  run_trace : list Invocation
}.

Definition halt (o : Outcome) (c : Context) : Run :=
  {| run_outcome := o; run_cxt := c; run_trace := [] |}.

(** [r] preceded by the invocations [tr]. *)
Definition after (tr : list Invocation) (r : Run) : Run :=
  {| run_outcome := run_outcome r; run_cxt := run_cxt r; run_trace := tr ++ run_trace r |}.

(** Modelled from the spec: the prefix under which the router logs a
    recoverable error (the spec leaves the severity string open). *)
Definition recoverable_prefix : string := "error".

(** Modelled from the spec: a recoverable error still stores the result, if
    there is one. *)
Definition store_if_any (name : string) (v : ContextValue) (c : Context) : Context :=
  if is_nil v then c else Context_Add name v c.

(** Modelled from the spec: the Binding, Invoking and Continuing states of
    the executor over the steps of one route; [reroute] is what a Reroute
    signal hands over to. *)
Fixpoint run_steps (req : Request) (reroute : string -> Context -> Run)
    (steps : list Step) (c : Context) : Run :=
  match steps with
  | [] => halt HaltedOk c
  | s :: rest =>
      match step_op s with
      | None => halt (HaltedError (NotFound (step_name s))) c
      | Some cmd =>
          let inv := invocation req s c in
          let '(c1, res, sig) := cmd c (inv_params inv) in
          after [inv]
            match sig with
            | SigNone =>
                run_steps req reroute rest (Context_Add (step_name s) res c1)
            | RecoverableError e =>
                run_steps req reroute rest
                  (store_if_any (step_name s) res (Context_Log recoverable_prefix e c1))
            | Stop => halt HaltedOk c1
            | Reroute target => reroute target c1
            | FatalError e => halt (HaltedError (Fatal e)) c1
            end
      end
  end.

(** Modelled from the spec: the Resolving and Rerouting states; [hops] is
    the number of reroutes still allowed, and a Reroute signal beyond it is
    the RerouteLimitExceeded failure. *)
Fixpoint run_route (hops : nat) (reg : gmap string Route) (req : Request)
    (id : string) (c : Context) : Run :=
  match reg !! id with
  | None => halt (HaltedError (NotFound id)) c
  | Some r =>
      run_steps req
        (fun target c' =>
           match hops with
           | O => halt (HaltedError RerouteLimitExceeded) c'
           | S h => run_route h reg req target c'
           end)
        (route_steps r) c
  end.

(** What a Reroute signal hands over to when [hops] reroutes are left. *)
Definition rerouter (hops : nat) (reg : gmap string Route) (req : Request)
    (target : string) (c : Context) : Run :=
  match hops with
  | O => halt (HaltedError RerouteLimitExceeded) c
  | S h => run_route h reg req target c
  end.

(** Modelled from the spec: [router.HandleRequest] of the tutorial, the
    execution of route [id] on context [c] with at most [max_hops]
    reroutes. *)
Definition HandleRequest (max_hops : nat) (reg : gmap string Route) (req : Request)
    (id : string) (c : Context) : Run :=
  run_route max_hops reg req id c.

(** The prefix [pre] of a route runs to its end: every step of it is
    invoked and signals none or a recoverable error, taking the context
    from [c] to [c'] with the invocations [tr]. *)
Inductive advances (req : Request) : list Step -> Context -> Context -> list Invocation -> Prop :=
| adv_nil c : advances req [] c c []
| adv_none s rest cmd c c1 res c' tr :
    step_op s = Some cmd ->
    cmd c (bind_params req c (step_params s)) = (c1, res, SigNone) ->
    advances req rest (Context_Add (step_name s) res c1) c' tr ->
    advances req (s :: rest) c c' (invocation req s c :: tr)
| adv_recoverable s rest cmd c c1 res e c' tr :
    step_op s = Some cmd ->
    cmd c (bind_params req c (step_params s)) = (c1, res, RecoverableError e) ->
    advances req rest
      (store_if_any (step_name s) res (Context_Log recoverable_prefix e c1)) c' tr ->
    advances req (s :: rest) c c' (invocation req s c :: tr).

(** ** Laws relating the accessors of [getter.go] *)

(** A Getter whose [Get] agrees with its [Has]: the value [Has] finds, the
    supplied default when [Has] finds none. *)
Definition lawful (g : Getter) : Prop :=
  ∀ key d, Get g key d = if has_key g key then (Has g key).1 else d.

(** What a typed [Get] accessor yields when [Get] agrees with [Has], in
    terms of the matching typed [Has] result [has]: the default on a missing
    key, the typed value when the typed [Has] finds it, a panic otherwise. *)
Definition typed_Get_outcome {A} (want : GoType) (source : Getter) (key : string)
    (d : A) (has : A * bool) : result A :=
  if has_key source key then
    if has.2 then Ok has.1
    else Panic (InterfaceConversion (dyn_type (Has source key).1) want)
  else Ok d.

(** The found flags of the seven typed [Has] accessors for one key. *)
Definition typed_found (key : string) (source : Getter) : list bool :=
  [ (HasString key source).2;
    (HasBool key false source).2;
    (HasInt key 0 source).2;
    (HasInt32 key 0 source).2;
    (HasInt64 key 0 source).2;
    (HasUint64 key 0 source).2;
    (HasFloat64 key float_zero source).2 ].

(** How many of the typed [Has] accessors find the key. *)
Definition found_count (key : string) (source : Getter) : nat :=
  length (List.filter (λ b : bool, b) (typed_found key source)).

(** The dynamic types the typed accessors cover. *)
Definition accessor_types : list GoType :=
  [TString; TBool; TInt; TInt32; TInt64; TUint64; TFloat64].


(** Whether some source of the list reports [key] as found. *)
Definition any_hit (key : string) (sources : list Getter) : bool :=
  existsb (λ g : Getter, has_key g key) sources.

(** ** Sample data *)

(** A datasource holding a string, an int and a bool. *)
Definition mixed_source : KeyValueDatasource :=
  {| Value := fun key =>
       if decide (key = "name"%string) then VString "cookoo"
       else if decide (key = "port"%string) then VInt 8080
       else if decide (key = "debug"%string) then VBool true
       else VNil |}.

(** The command of the tutorial: it builds a message and raises no signal. *)
Definition MyMessage : Command :=
  fun c _ => (c, VString "Route GET / executed", SigNone).

(** A command that hands back its [content] parameter. *)
Definition Flush : Command :=
  fun c p => (c, default VNil (p !! "content"%string), SigNone).

(** A command that reports a recoverable error beside a result. *)
Definition Flaky : Command :=
  fun c _ => (c, VString "partial", RecoverableError "disk almost full").

(** A command that fails fatally. *)
Definition Broken : Command :=
  fun c _ => (c, VNil, FatalError "boom").

Definition content_from_msg : ParamBinding :=
  {| param_name := "content";
     param_from := [ {| src_kind := FromContext; src_key := "msg" |} ];
     param_default := None |}.

Definition step_of (cmd : Command) (name : string) (bs : list ParamBinding) : Step :=
  {| step_op := Some cmd; step_name := name; step_params := bs |}.

(** [registry.Route("GET /", "The Homepage").Does(MyMessage, "msg").
    Does(web.Flush, "out").Using("content").From("cxt:msg")] and two routes
    that meet an error on their way. *)
Definition sample_registry : gmap string Route :=
  {[ "GET /"%string :=
       {| route_description := "The Homepage";
          route_steps := [ step_of MyMessage "msg" [];
                           step_of Flush "out" [content_from_msg] ] |};
     "GET /flaky"%string :=
       {| route_description := "Recovers";
          route_steps := [ step_of MyMessage "msg" [];
                           step_of Flaky "try" [];
                           step_of Flush "out" [content_from_msg] ] |};
     "GET /broken"%string :=
       {| route_description := "Halts";
          route_steps := [ step_of MyMessage "msg" [];
                           step_of Broken "try" [];
                           step_of Flush "out" [content_from_msg] ] |} ]}.

Definition no_data : Getter := GettableDatasource {| Value := fun _ => VNil |}.

Definition sample_request : Request :=
  {| req_path := no_data; req_query := no_data; req_post := no_data |}.

(** A context with two registered loggers, as in the logging tutorial. *)
Definition sample_context : Context :=
  {| values := ∅;
     loggers := {[ "foo"%string := []; "bar"%string := [] ]} |}.

(** The heap of [TestCopy] just before its [c.Copy()]: one aggregate at
    address [0], one context at address [0] binding ["a"] to it. *)
Definition lame_heap : Heap :=
  {| contexts := {[ 0 := {[ "a"%string := VPtr 0; "b"%string := VString "song" ]} ]};
     aggregates := {[ 0 := {| stuff := ["O"; "Hai"]%string |} ]} |}.

(** A datasource that answers every key with the int [42]. *)
Definition int_source : KeyValueDatasource := {| Value := fun _ => VInt 42 |}.

(** A datasource with no key at all. *)
Definition empty_source : KeyValueDatasource := {| Value := fun _ => VNil |}.

(** A datasource holding only ["msg"]. *)
Definition msg_source : KeyValueDatasource :=
  {| Value := fun key => if decide (key = "msg") then VString "hello" else VNil |}.

(** * Properties of [getter.go] *)

Section getter_facts.
Implicit Types (source s : Getter) (key : string) (v d : ContextValue).

Lemma GettableDatasource_Has_found g key :
  Value g key ≠ VNil → Has (GettableDatasource g) key = (Value g key, true).
Proof.
  intros Hv. cbn. unfold GettableDatasource_Has.
  destruct (Value g key); [congruence | reflexivity ..].
Qed.

Lemma GettableDatasource_Has_missing g key :
  has_key (GettableDatasource g) key = false ↔ Value g key = VNil.
Proof.
  unfold has_key. cbn. unfold GettableDatasource_Has.
  destruct (Value g key); cbn; split; (reflexivity || discriminate).
Qed.

Lemma GettableDatasource_Get_found g key d :
  Value g key ≠ VNil → Get (GettableDatasource g) key d = Value g key.
Proof.
  intros Hv. cbn. unfold GettableDatasource_Get.
  destruct (Value g key); [congruence | reflexivity ..].
Qed.

Lemma GettableDatasource_Get_missing g key d :
  Value g key = VNil → Get (GettableDatasource g) key d = d.
Proof. intros Hv. cbn. unfold GettableDatasource_Get. rewrite Hv. reflexivity. Qed.

(** A datasource stores exactly its non-nil values. *)
Lemma GettableDatasource_stores g key :
  Value g key ≠ VNil → stores (GettableDatasource g) key (Value g key).
Proof.
  intros Hv. split.
  - by apply GettableDatasource_Has_found.
  - intros d. by apply GettableDatasource_Get_found.
Qed.

Lemma DefaultGetter_stores val key : stores (DefaultGetter val) key val.
Proof. split; [reflexivity | intros d; reflexivity]. Qed.

(** A single-valued assertion against a value of another dynamic type. *)
Lemma assert1_mismatch {A} (want : GoType) (proj : ContextValue -> option A) v :
  proj v = None → assert1 want proj v = Panic (InterfaceConversion (dyn_type v) want).
Proof. intros H. unfold assert1. by rewrite H. Qed.

Lemma assert2_mismatch {A} (zero : A) (proj : ContextValue -> option A) v :
  proj v = None → assert2 zero proj v = (zero, false).
Proof. intros H. unfold assert2. by rewrite H. Qed.

(** Each projection is defined exactly on the values of its dynamic type. *)
Lemma as_string_None v : dyn_type v ≠ Some TString → as_string v = None.
Proof. destruct v; cbn; congruence. Qed.
Lemma as_bool_None v : dyn_type v ≠ Some TBool → as_bool v = None.
Proof. destruct v; cbn; congruence. Qed.
Lemma as_int_None v : dyn_type v ≠ Some TInt → as_int v = None.
Proof. destruct v; cbn; congruence. Qed.
Lemma as_int32_None v : dyn_type v ≠ Some TInt32 → as_int32 v = None.
Proof. destruct v; cbn; congruence. Qed.
Lemma as_int64_None v : dyn_type v ≠ Some TInt64 → as_int64 v = None.
Proof. destruct v; cbn; congruence. Qed.
Lemma as_uint64_None v : dyn_type v ≠ Some TUint64 → as_uint64 v = None.
Proof. destruct v; cbn; congruence. Qed.
Lemma as_float64_None v : dyn_type v ≠ Some TFloat64 → as_float64 v = None.
Proof. destruct v; cbn; congruence. Qed.

End getter_facts.

Create HintDb gotypes.
#[local] Hint Resolve as_string_None as_bool_None as_int_None as_int32_None
  as_int64_None as_uint64_None as_float64_None : gotypes.

(** Unfold a typed [Get] accessor whose source returns the stored value. *)
Ltac typed_get Hget :=
  intros ?; unfold GetString, GetBool, GetInt, GetInt32, GetInt64, GetUint64, GetFloat64;
  rewrite Hget; apply assert1_mismatch; auto with gotypes.

(** Unfold a typed [Has] accessor whose source finds the stored value. *)
Ltac typed_has Hhas :=
  try intros ?; unfold HasString, HasBool, HasInt, HasInt32, HasInt64, HasUint64, HasFloat64;
  rewrite Hhas; cbn [negb]; rewrite assert2_mismatch by auto with gotypes; reflexivity.

Section typed_accessors.
Variables (source : Getter) (key : string) (v : ContextValue).
Hypothesis Hst : stores source key v.

Lemma GetString_mismatch :
  dyn_type v ≠ Some TString →
  ∀ d, GetString key d source = Panic (InterfaceConversion (dyn_type v) TString).
Proof. destruct Hst as [_ Hget]. intros Hty. typed_get Hget. Qed.

Lemma GetBool_mismatch :
  dyn_type v ≠ Some TBool →
  ∀ d, GetBool key d source = Panic (InterfaceConversion (dyn_type v) TBool).
Proof. destruct Hst as [_ Hget]. intros Hty. typed_get Hget. Qed.

Lemma GetInt_mismatch :
  dyn_type v ≠ Some TInt →
  ∀ d, GetInt key d source = Panic (InterfaceConversion (dyn_type v) TInt).
Proof. destruct Hst as [_ Hget]. intros Hty. typed_get Hget. Qed.

Lemma GetInt32_mismatch :
  dyn_type v ≠ Some TInt32 →
  ∀ d, GetInt32 key d source = Panic (InterfaceConversion (dyn_type v) TInt32).
Proof. destruct Hst as [_ Hget]. intros Hty. typed_get Hget. Qed.

Lemma GetInt64_mismatch :
  dyn_type v ≠ Some TInt64 →
  ∀ d, GetInt64 key d source = Panic (InterfaceConversion (dyn_type v) TInt64).
Proof. destruct Hst as [_ Hget]. intros Hty. typed_get Hget. Qed.

Lemma GetUint64_mismatch :
  dyn_type v ≠ Some TUint64 →
  ∀ d, GetUint64 key d source = Panic (InterfaceConversion (dyn_type v) TUint64).
Proof. destruct Hst as [_ Hget]. intros Hty. typed_get Hget. Qed.

Lemma GetFloat64_mismatch :
  dyn_type v ≠ Some TFloat64 →
  ∀ d, GetFloat64 key d source = Panic (InterfaceConversion (dyn_type v) TFloat64).
Proof. destruct Hst as [_ Hget]. intros Hty. typed_get Hget. Qed.

Lemma HasString_mismatch :
  dyn_type v ≠ Some TString → HasString key source = (""%string, false).
Proof. destruct Hst as [Hhas _]. intros Hty. typed_has Hhas. Qed.

Lemma HasBool_mismatch :
  dyn_type v ≠ Some TBool → ∀ d, HasBool key d source = (false, false).
Proof. destruct Hst as [Hhas _]. intros Hty. typed_has Hhas. Qed.

Lemma HasInt_mismatch :
  dyn_type v ≠ Some TInt → ∀ d, HasInt key d source = (0%Z, false).
Proof. destruct Hst as [Hhas _]. intros Hty. typed_has Hhas. Qed.

Lemma HasInt32_mismatch :
  dyn_type v ≠ Some TInt32 → ∀ d, HasInt32 key d source = (0%Z, false).
Proof. destruct Hst as [Hhas _]. intros Hty. typed_has Hhas. Qed.

Lemma HasInt64_mismatch :
  dyn_type v ≠ Some TInt64 → ∀ d, HasInt64 key d source = (0%Z, false).
Proof. destruct Hst as [Hhas _]. intros Hty. typed_has Hhas. Qed.

Lemma HasUint64_mismatch :
  dyn_type v ≠ Some TUint64 → ∀ d, HasUint64 key d source = (0%Z, false).
Proof. destruct Hst as [Hhas _]. intros Hty. typed_has Hhas. Qed.

Lemma HasFloat64_mismatch :
  dyn_type v ≠ Some TFloat64 → ∀ d, HasFloat64 key d source = (float_zero, false).
Proof. destruct Hst as [Hhas _]. intros Hty. typed_has Hhas. Qed.

End typed_accessors.

(** ** [GetFromFirst] *)

Lemma GetFromFirst_skip key defaultVal pre rest :
  all_miss key pre →
  GetFromFirst key defaultVal (pre ++ rest) = GetFromFirst key defaultVal rest.
Proof.
  induction 1 as [| g pre Hg _ IH]; [reflexivity |].
  cbn. unfold has_key in Hg. destruct (Has g key) as [w ok]. cbn in Hg. subst ok.
  exact IH.
Qed.

Lemma GetFromFirst_hit key defaultVal s rest v :
  Has s key = (v, true) → GetFromFirst key defaultVal (s :: rest) = (v, s).
Proof. intros H. cbn. by rewrite H. Qed.

(** C1: for every key, default and ordered list of sources, [GetFromFirst]
    returns the value of the first source, in declared order, whose [Has]
    reports the key as found, paired with that very source; when no source
    has the key (in particular when there is none) it returns the default
    paired with a [DefaultGetter] whose [Has] reports the default as found. *)
Theorem GetFromFirst_first_match (key : string) (defaultVal : ContextValue)
    (sources : list Getter) :
  (∀ pre s post v,
      sources = pre ++ s :: post →
      all_miss key pre →
      Has s key = (v, true) →
      GetFromFirst key defaultVal sources = (v, s))
  ∧ (all_miss key sources →
      GetFromFirst key defaultVal sources = (defaultVal, DefaultGetter defaultVal)
      ∧ Has (DefaultGetter defaultVal) key = (defaultVal, true)).
Proof.
  split.
  - intros pre s post v -> Hpre Hs.
    rewrite GetFromFirst_skip by assumption.
    by apply GetFromFirst_hit.
  - intros Hall. split; [| reflexivity].
    rewrite <- (app_nil_r sources).
    by rewrite GetFromFirst_skip.
Qed.

Lemma GetFromFirst_first_match_witness :
  GetFromFirst "msg" (VString "dflt")
    [GettableDatasource empty_source; GettableDatasource msg_source;
     GettableDatasource int_source]
  = (VString "hello", GettableDatasource msg_source)
  ∧ GetFromFirst "msg" (VString "dflt") [GettableDatasource empty_source]
    = (VString "dflt", DefaultGetter (VString "dflt")).
Proof.
  split.
  - apply (proj1 (GetFromFirst_first_match "msg" (VString "dflt") _)
             [GettableDatasource empty_source] (GettableDatasource msg_source)
             [GettableDatasource int_source] (VString "hello")).
    + reflexivity.
    + repeat constructor.
    + reflexivity.
  - apply (proj2 (GetFromFirst_first_match "msg" (VString "dflt")
                    [GettableDatasource empty_source])).
    repeat constructor.
Defined.

(** ** The typed accessors *)

(** C2: whenever a source stores under a key a value whose dynamic type is
    not the requested one, every typed [Get] accessor fails (it panics on the
    interface conversion, whatever default is passed) while the matching
    typed [Has] accessor returns normally and reports not-found. *)
Theorem typed_accessors_mismatch (source : Getter) (key : string) (v : ContextValue) :
  stores source key v →
  (dyn_type v ≠ Some TString →
     (∀ d, GetString key d source = Panic (InterfaceConversion (dyn_type v) TString))
     ∧ HasString key source = (""%string, false))
  ∧ (dyn_type v ≠ Some TBool →
     (∀ d, GetBool key d source = Panic (InterfaceConversion (dyn_type v) TBool))
     ∧ (∀ d, HasBool key d source = (false, false)))
  ∧ (dyn_type v ≠ Some TInt →
     (∀ d, GetInt key d source = Panic (InterfaceConversion (dyn_type v) TInt))
     ∧ (∀ d, HasInt key d source = (0%Z, false)))
  ∧ (dyn_type v ≠ Some TInt32 →
     (∀ d, GetInt32 key d source = Panic (InterfaceConversion (dyn_type v) TInt32))
     ∧ (∀ d, HasInt32 key d source = (0%Z, false)))
  ∧ (dyn_type v ≠ Some TInt64 →
     (∀ d, GetInt64 key d source = Panic (InterfaceConversion (dyn_type v) TInt64))
     ∧ (∀ d, HasInt64 key d source = (0%Z, false)))
  ∧ (dyn_type v ≠ Some TUint64 →
     (∀ d, GetUint64 key d source = Panic (InterfaceConversion (dyn_type v) TUint64))
     ∧ (∀ d, HasUint64 key d source = (0%Z, false)))
  ∧ (dyn_type v ≠ Some TFloat64 →
     (∀ d, GetFloat64 key d source = Panic (InterfaceConversion (dyn_type v) TFloat64))
     ∧ (∀ d, HasFloat64 key d source = (float_zero, false))).
Proof.
  intros Hst. repeat split; intros.
  - by eapply GetString_mismatch.
  - by eapply HasString_mismatch.
  - by eapply GetBool_mismatch.
  - by eapply HasBool_mismatch.
  - by eapply GetInt_mismatch.
  - by eapply HasInt_mismatch.
  - by eapply GetInt32_mismatch.
  - by eapply HasInt32_mismatch.
  - by eapply GetInt64_mismatch.
  - by eapply HasInt64_mismatch.
  - by eapply GetUint64_mismatch.
  - by eapply HasUint64_mismatch.
  - by eapply GetFloat64_mismatch.
  - by eapply HasFloat64_mismatch.
Qed.

Lemma typed_accessors_mismatch_witness :
  stores (GettableDatasource int_source) "k" (VInt 42)
  ∧ GetString "k" "d" (GettableDatasource int_source)
    = Panic (InterfaceConversion (Some TInt) TString)
  ∧ HasString "k" (GettableDatasource int_source) = (""%string, false).
Proof.
  assert (Hst : stores (GettableDatasource int_source) "k" (VInt 42)).
  { split; [reflexivity | intros d; reflexivity]. }
  split; [exact Hst |].
  destruct (typed_accessors_mismatch _ _ _ Hst) as [Hs _].
  destruct Hs as [Hget Hhas]; [discriminate |].
  split; [apply Hget | exact Hhas].
Defined.

(** A typed [Has] accessor on a key the source does not have. *)
Ltac typed_has_missing Hmiss :=
  unfold HasString, HasBool, HasInt, HasInt32, HasInt64, HasUint64, HasFloat64;
  unfold has_key in Hmiss;
  destruct (Has _ _) as [? ok]; cbn in Hmiss; subst ok; reflexivity.

(** C9: the default parameter of [HasBool], [HasInt], [HasInt64],
    [HasInt32], [HasUint64] and [HasFloat64] has no effect on the result; on
    a missing key and on a value of another dynamic type these accessors
    return the zero value of their type with [found = false]. *)
Theorem typed_Has_ignores_default (source : Getter) (key : string) :
  (∀ d d', HasBool key d source = HasBool key d' source)
  ∧ (∀ d d', HasInt key d source = HasInt key d' source)
  ∧ (∀ d d', HasInt64 key d source = HasInt64 key d' source)
  ∧ (∀ d d', HasInt32 key d source = HasInt32 key d' source)
  ∧ (∀ d d', HasUint64 key d source = HasUint64 key d' source)
  ∧ (∀ d d', HasFloat64 key d source = HasFloat64 key d' source)
  ∧ (has_key source key = false →
       (∀ d, HasBool key d source = (false, false))
       ∧ (∀ d, HasInt key d source = (0%Z, false))
       ∧ (∀ d, HasInt64 key d source = (0%Z, false))
       ∧ (∀ d, HasInt32 key d source = (0%Z, false))
       ∧ (∀ d, HasUint64 key d source = (0%Z, false))
       ∧ (∀ d, HasFloat64 key d source = (float_zero, false)))
  ∧ (∀ v, stores source key v →
       (dyn_type v ≠ Some TBool → ∀ d, HasBool key d source = (false, false))
       ∧ (dyn_type v ≠ Some TInt → ∀ d, HasInt key d source = (0%Z, false))
       ∧ (dyn_type v ≠ Some TInt64 → ∀ d, HasInt64 key d source = (0%Z, false))
       ∧ (dyn_type v ≠ Some TInt32 → ∀ d, HasInt32 key d source = (0%Z, false))
       ∧ (dyn_type v ≠ Some TUint64 → ∀ d, HasUint64 key d source = (0%Z, false))
       ∧ (dyn_type v ≠ Some TFloat64 →
            ∀ d, HasFloat64 key d source = (float_zero, false))).
Proof.
  repeat apply conj; try (intros d d'; reflexivity).
  - intros Hmiss. repeat apply conj; intros d; typed_has_missing Hmiss.
  - intros v Hst. repeat apply conj; intros Hty.
    + by eapply HasBool_mismatch.
    + by eapply HasInt_mismatch.
    + by eapply HasInt64_mismatch.
    + by eapply HasInt32_mismatch.
    + by eapply HasUint64_mismatch.
    + by eapply HasFloat64_mismatch.
Qed.

Lemma typed_Has_ignores_default_witness :
  has_key (GettableDatasource empty_source) "k" = false
  ∧ HasInt "k" 7 (GettableDatasource empty_source) = (0%Z, false)
  ∧ stores (DefaultGetter (VString "seven")) "k" (VString "seven")
  ∧ HasInt "k" 7 (DefaultGetter (VString "seven")) = (0%Z, false).
Proof.
  split; [reflexivity |]. split.
  - destruct (typed_Has_ignores_default (GettableDatasource empty_source) "k")
      as (_ & _ & _ & _ & _ & _ & Hmiss & _).
    destruct Hmiss as (_ & Hint & _); [reflexivity |]. apply Hint.
  - split; [apply DefaultGetter_stores |].
    destruct (typed_Has_ignores_default (DefaultGetter (VString "seven")) "k")
      as (_ & _ & _ & _ & _ & _ & _ & Hmis).
    destruct (Hmis (VString "seven") (DefaultGetter_stores _ _)) as (_ & Hint & _).
    apply Hint. discriminate.
Defined.

(** C10: a [DefaultGetter] built on [v] is a constant Getter: for every key
    and every supplied default, [Get] returns [v] and [Has] returns
    [(v, true)], so neither result depends on the key or on the caller's
    default. *)
Theorem DefaultGetter_constant (v : ContextValue) :
  (∀ key d, Get (DefaultGetter v) key d = v)
  ∧ (∀ key, Has (DefaultGetter v) key = (v, true))
  ∧ (∀ key key' d d', Get (DefaultGetter v) key d = Get (DefaultGetter v) key' d')
  ∧ (∀ key key', Has (DefaultGetter v) key = Has (DefaultGetter v) key').
Proof. repeat split. Qed.

(** ** [Get] and its default *)

(** C3 as stated fails: a typed accessor applied to a stored value of
    another type does not hand back the supplied default. On a datasource
    that stores the int [42] under ["k"], [GetString "k" "d"] panics. *)
Lemma typed_Get_returns_default_counterexample :
  stores (GettableDatasource int_source) "k" (VInt 42)
  ∧ dyn_type (VInt 42) ≠ Some TString
  ∧ GetString "k" "d" (GettableDatasource int_source)
    = Panic (InterfaceConversion (Some TInt) TString)
  ∧ GetString "k" "d" (GettableDatasource int_source) ≠ Ok "d"%string.
Proof.
  split; [split; [reflexivity | intros d; reflexivity] |].
  split; [discriminate |]. split; [reflexivity | discriminate].
Qed.

Lemma source_getter_miss source key :
  source_getter source → has_key source key = false → ∀ d, Get source key d = d.
Proof.
  intros [g | val] Hmiss d.
  - apply GettableDatasource_Get_missing. by apply GettableDatasource_Has_missing.
  - discriminate Hmiss.
Qed.

(** C3, amended: for the Getters of [getter.go] (a [GettableDatasource] or
    a [DefaultGetter]), [Get] is a total function of the key and the default
    and returns the default when the key is absent, and so does every typed
    [Get] accessor; applied to a stored value of another dynamic type a
    typed [Get] accessor does not return the default but fails. *)
Theorem Get_default_on_miss_only (source : Getter) (key : string) :
  source_getter source →
  (has_key source key = false →
     (∀ d, Get source key d = d)
     ∧ (∀ d, GetString key d source = Ok d)
     ∧ (∀ d, GetBool key d source = Ok d)
     ∧ (∀ d, GetInt key d source = Ok d)
     ∧ (∀ d, GetInt32 key d source = Ok d)
     ∧ (∀ d, GetInt64 key d source = Ok d)
     ∧ (∀ d, GetUint64 key d source = Ok d)
     ∧ (∀ d, GetFloat64 key d source = Ok d))
  ∧ (∀ v, stores source key v →
       (dyn_type v ≠ Some TString →
          ∀ d, GetString key d source = Panic (InterfaceConversion (dyn_type v) TString))
       ∧ (dyn_type v ≠ Some TBool →
          ∀ d, GetBool key d source = Panic (InterfaceConversion (dyn_type v) TBool))
       ∧ (dyn_type v ≠ Some TInt →
          ∀ d, GetInt key d source = Panic (InterfaceConversion (dyn_type v) TInt))
       ∧ (dyn_type v ≠ Some TInt32 →
          ∀ d, GetInt32 key d source = Panic (InterfaceConversion (dyn_type v) TInt32))
       ∧ (dyn_type v ≠ Some TInt64 →
          ∀ d, GetInt64 key d source = Panic (InterfaceConversion (dyn_type v) TInt64))
       ∧ (dyn_type v ≠ Some TUint64 →
          ∀ d, GetUint64 key d source = Panic (InterfaceConversion (dyn_type v) TUint64))
       ∧ (dyn_type v ≠ Some TFloat64 →
          ∀ d, GetFloat64 key d source
               = Panic (InterfaceConversion (dyn_type v) TFloat64))).
Proof.
  intros Hsrc. split.
  - intros Hmiss.
    pose proof (source_getter_miss _ _ Hsrc Hmiss) as Hget.
    repeat apply conj; intros d;
      unfold GetString, GetBool, GetInt, GetInt32, GetInt64, GetUint64, GetFloat64;
      rewrite ?Hget; reflexivity.
  - intros v Hst. repeat apply conj; intros Hty.
    + by eapply GetString_mismatch.
    + by eapply GetBool_mismatch.
    + by eapply GetInt_mismatch.
    + by eapply GetInt32_mismatch.
    + by eapply GetInt64_mismatch.
    + by eapply GetUint64_mismatch.
    + by eapply GetFloat64_mismatch.
Qed.

Lemma Get_default_on_miss_only_witness :
  source_getter (GettableDatasource msg_source)
  ∧ has_key (GettableDatasource msg_source) "other" = false
  ∧ GetInt "other" 5 (GettableDatasource msg_source) = Ok 5%Z
  ∧ stores (GettableDatasource msg_source) "msg" (VString "hello")
  ∧ GetInt "msg" 5 (GettableDatasource msg_source)
    = Panic (InterfaceConversion (Some TString) TInt).
Proof.
  split; [constructor |]. split; [reflexivity |].
  split.
  - destruct (Get_default_on_miss_only (GettableDatasource msg_source) "other")
      as [Hmiss _]; [constructor |].
    destruct Hmiss as (_ & _ & _ & Hint & _); [reflexivity |]. apply Hint.
  - assert (Hst : stores (GettableDatasource msg_source) "msg" (VString "hello")).
    { split; [reflexivity | intros d; reflexivity]. }
    split; [exact Hst |].
    destruct (Get_default_on_miss_only (GettableDatasource msg_source) "msg")
      as [_ Hmis]; [constructor |].
    destruct (Hmis _ Hst) as (_ & _ & Hint & _).
    apply Hint. discriminate.
Defined.

(** * Properties of the value store *)

Section value_store.
Import ValueStore.
Implicit Types (h : Heap) (c s x : loc) (m : gmap string ContextValue).

(** Run a heap computation symbolically: unfold the monad and case on the
    lookups it performs. *)
Ltac run_heap :=
  unfold mutate_through, read_through, get_ptr, set_stuff, get_stuff,
    Copy, Add, Remove, Len, Get, Has, NewContext,
    deref, set_aggregate, set_table, alloc_table, table, raise, bindings, keys in *;
  unfold mbind, M_bind, mret, M_ret in *; cbn in *.

Lemma Copy_inv s h c h1 :
  Copy s h = Ok (c, h1) →
  ∃ m, contexts h !! s = Some m
     ∧ c = fresh (dom (contexts h))
     ∧ contexts h !! c = None
     ∧ c ≠ s
     ∧ contexts h1 = <[c := m]> (contexts h)
     ∧ aggregates h1 = aggregates h.
Proof.
  run_heap. destruct (contexts h !! s) as [m |] eqn:Hs; [| discriminate].
  intros [= <- <-]. exists m. cbn.
  assert (Hfresh : contexts h !! fresh (dom (contexts h)) = None).
  { apply not_elem_of_dom, is_fresh. }
  repeat split; try done. intros Heq. rewrite Heq in Hfresh. congruence.
Qed.

Lemma run_op_bindings o h h2 x m :
  run_op o h = Ok (tt, h2) →
  bindings x h = Some m →
  bindings x h2 = Some (apply_op x o m) ∧ aggregates h2 = aggregates h.
Proof.
  destruct o as [c key value | c key]; cbn; run_heap;
    (destruct (contexts h !! c) as [mc |] eqn:Hc; [| discriminate]);
    intros [= <-] Hx; cbn; (split; [| reflexivity]);
    (destruct (decide (c = x)) as [-> | Hne];
      [rewrite lookup_insert_eq; congruence | by rewrite lookup_insert_ne]).
Qed.

(** Interleaved updates: the table of each store evolves by its own
    updates only. *)
Lemma run_ops_bindings os : ∀ h h2 x m,
  run_ops os h = Ok (tt, h2) →
  bindings x h = Some m →
  bindings x h2 = Some (apply_own x os m) ∧ aggregates h2 = aggregates h.
Proof.
  induction os as [| o os IH]; intros h h2 x m Hrun Hx.
  - cbn in Hrun. injection Hrun as <-. by split.
  - cbn in Hrun. unfold mbind, M_bind in Hrun.
    destruct (run_op o h) as [[[] h1] | p] eqn:Ho; [| discriminate].
    destruct (run_op_bindings _ _ _ _ _ Ho Hx) as [Hx1 Hagg1].
    destruct (IH _ _ _ _ Hrun Hx1) as [Hx2 Hagg2].
    split; [exact Hx2 | congruence].
Qed.

Lemma apply_own_other x os m :
  Forall (λ o, op_target o ≠ x) os → apply_own x os m = m.
Proof.
  intros Hall. revert m. induction Hall as [| o os Ho _ IH]; intros m; [reflexivity |].
  cbn. rewrite <- (IH m) at 2. f_equal.
  destruct o; cbn in *; by rewrite decide_False.
Qed.

(** Updates of live stores do not panic. *)
Lemma run_ops_total os : ∀ h,
  Forall (λ o, is_Some (bindings (op_target o) h)) os →
  ∃ h2, run_ops os h = Ok (tt, h2).
Proof.
  induction os as [| o os IH]; intros h Hall; [by eexists |].
  apply Forall_cons in Hall as [[mo Ho] Hall].
  assert (∃ h1, run_op o h = Ok (tt, h1)
                ∧ ∀ y, is_Some (bindings y h) → is_Some (bindings y h1)) as (h1 & Hrun & Hlive).
  { destruct o as [c key value | c key]; cbn in Ho |- *; run_heap; rewrite Ho;
      eexists; (split; [reflexivity |]); cbn; intros y Hy;
      (destruct (decide (c = y)) as [-> | Hne];
        [rewrite lookup_insert_eq; eauto | by rewrite lookup_insert_ne]). }
  destruct (IH h1) as [h2 Hh2].
  { eapply Forall_impl; [exact Hall |]. intros o' Ho'. by apply Hlive. }
  exists h2. cbn. unfold mbind, M_bind. by rewrite Hrun.
Qed.

Lemma Copy_tables s h c h1 :
  Copy s h = Ok (c, h1) →
  ∃ m, bindings s h = Some m ∧ bindings s h1 = Some m ∧ bindings c h1 = Some m
     ∧ bindings c h = None ∧ c ≠ s.
Proof.
  intros (m & Hs & _ & Hc & Hne & Hctx & _)%Copy_inv.
  exists m. unfold bindings. rewrite Hctx.
  rewrite lookup_insert_eq, lookup_insert_ne by done. done.
Qed.

Lemma Len_bindings x h m : bindings x h = Some m → Len x h = Ok (size m, h).
Proof. run_heap. by intros ->. Qed.

(** C4: a copy has the length of its original at the moment of the copy, and
    afterwards the two stores are isolated at the top level: whatever [Add]
    and [Remove] operations are then run on the original and on the copy
    (none of which can fail), the bindings of each store, and so its key
    set, change by its own operations only; operations on one store alone
    leave the bindings and the key set of the other as they were. *)
Theorem Copy_isolates_bindings (s : loc) (h : Heap) (c : loc) (h1 : Heap) :
  Copy s h = Ok (c, h1) →
  (∃ n, Len s h = Ok (n, h) ∧ Len s h1 = Ok (n, h1) ∧ Len c h1 = Ok (n, h1))
  ∧ bindings c h1 = bindings s h
  ∧ (∀ os, Forall (λ o, op_target o = s ∨ op_target o = c) os →
       ∃ h2, run_ops os h1 = Ok (tt, h2))
  ∧ (∀ os h2, run_ops os h1 = Ok (tt, h2) →
       bindings s h2 = apply_own s os <$> bindings s h1
       ∧ bindings c h2 = apply_own c os <$> bindings c h1
       ∧ (Forall (λ o, op_target o = s) os →
            bindings c h2 = bindings c h1 ∧ keys c h2 = keys c h1)
       ∧ (Forall (λ o, op_target o = c) os →
            bindings s h2 = bindings s h1 ∧ keys s h2 = keys s h1)).
Proof.
  intros (m & Hs & Hs1 & Hc1 & _ & Hne)%Copy_tables.
  split; [| split; [| split]].
  - exists (size m). by rewrite !(Len_bindings _ _ m).
  - congruence.
  - intros os Hos. apply run_ops_total.
    eapply Forall_impl; [exact Hos |].
    intros o [-> | ->]; eauto.
  - intros os h2 Hrun.
    destruct (run_ops_bindings _ _ _ s m Hrun Hs1) as [Hs2 _].
    destruct (run_ops_bindings _ _ _ c m Hrun Hc1) as [Hc2 _].
    rewrite Hs1, Hc1. cbn. repeat split; try done.
    + rewrite Hc2, apply_own_other; [done |].
      eapply Forall_impl; [eassumption |]. cbn. congruence.
    + unfold keys. rewrite Hc2, Hc1, apply_own_other; [done |].
      eapply Forall_impl; [eassumption |]. cbn. congruence.
    + rewrite Hs2, apply_own_other; [done |].
      eapply Forall_impl; [eassumption |]. cbn. congruence.
    + unfold keys. rewrite Hs2, Hs1, apply_own_other; [done |].
      eapply Forall_impl; [eassumption |]. cbn. congruence.
Qed.

Lemma Copy_isolates_bindings_witness :
  ∃ h1, Copy 0 lame_heap = Ok (1, h1)
      ∧ ∃ h2, run_ops [OpAdd 0 "c" (VInt 1234); OpAdd 0 "b" (VString "FOO");
                       OpRemove 0 "a"] h1 = Ok (tt, h2)
            ∧ bindings 1 h2 = bindings 0 lame_heap.
Proof.
  destruct (Copy 0 lame_heap) as [[c h1] | p] eqn:Hcopy; [| by vm_compute in Hcopy].
  assert (c = 1) as -> by (vm_compute in Hcopy; congruence).
  exists h1. split; [reflexivity |].
  destruct (Copy_isolates_bindings 0 lame_heap 1 h1 Hcopy) as (_ & Hsnap & Htotal & Hiso).
  destruct (Htotal [OpAdd 0 "c" (VInt 1234); OpAdd 0 "b" (VString "FOO"); OpRemove 0 "a"])
    as [h2 Hrun].
  { repeat constructor. }
  exists h2. split; [exact Hrun |].
  destruct (Hiso _ _ Hrun) as (_ & _ & Hleft & _).
  destruct Hleft as [Hb _]; [repeat constructor |].
  by rewrite Hb.
Defined.

(** ** Shared aggregates *)

Lemma get_ptr_bindings x h m key p :
  bindings x h = Some m → m !! key = Some (VPtr p) → get_ptr x key h = Ok (p, h).
Proof. run_heap. intros -> ->. reflexivity. Qed.

Lemma get_ptr_inv x h key p h' :
  get_ptr x key h = Ok (p, h') →
  h' = h ∧ ∃ m, bindings x h = Some m ∧ m !! key = Some (VPtr p).
Proof.
  run_heap. destruct (contexts h !! x) as [m |]; [| discriminate].
  destruct (m !! key) as [[] |] eqn:Hk; try discriminate.
  intros [= <- <-]. eauto.
Qed.

Lemma set_stuff_inv p i e h h2 :
  set_stuff p i e h = Ok (tt, h2) →
  ∃ a, aggregates h !! p = Some a
     ∧ i < length (stuff a)
     ∧ contexts h2 = contexts h
     ∧ aggregates h2 = <[p := {| stuff := <[i := e]> (stuff a) |}]> (aggregates h).
Proof.
  run_heap. destruct (aggregates h !! p) as [a |]; [| discriminate].
  destruct (decide (i < length (stuff a))); [| discriminate].
  intros [= <-]. eauto.
Qed.

(** A write through one store is read back through any store that binds the
    key to the same pointer. *)
Lemma mutate_read a b h key i e h2 p ma mb :
  bindings a h = Some ma → ma !! key = Some (VPtr p) →
  bindings b h = Some mb → mb !! key = Some (VPtr p) →
  mutate_through a key i e h = Ok (tt, h2) →
  read_through b key i h2 = Ok (e, h2).
Proof.
  intros Ha Hka Hb Hkb Hmut.
  unfold mutate_through, mbind, M_bind in Hmut.
  rewrite (get_ptr_bindings _ _ _ _ _ Ha Hka) in Hmut.
  apply set_stuff_inv in Hmut as (agg & Hagg & Hlt & Hctx & Haggs).
  unfold read_through, mbind, M_bind.
  rewrite (get_ptr_bindings b h2 mb key p); [| by unfold bindings; rewrite Hctx | done].
  unfold get_stuff, deref, mbind, M_bind. rewrite Haggs, lookup_insert_eq. cbn.
  by rewrite list_lookup_insert_eq.
Qed.

(** C5: a pointer stored before the copy is shared by the original and the
    copy: writing into the aggregate through the reference read from one
    store is observed when the same key is read through the other store
    (and through the first one). *)
Theorem Copy_shares_aggregates (s : loc) (h : Heap) (c : loc) (h1 : Heap)
    (key : string) (i : nat) (e : string) (h2 : Heap) :
  Copy s h = Ok (c, h1) →
  (mutate_through s key i e h1 = Ok (tt, h2) →
     read_through c key i h2 = Ok (e, h2) ∧ read_through s key i h2 = Ok (e, h2))
  ∧ (mutate_through c key i e h1 = Ok (tt, h2) →
     read_through s key i h2 = Ok (e, h2) ∧ read_through c key i h2 = Ok (e, h2)).
Proof.
  intros (m & _ & Hs1 & Hc1 & _ & _)%Copy_tables.
  split; intros Hmut.
  - assert (∃ p, m !! key = Some (VPtr p)) as [p Hp].
    { unfold mutate_through, mbind, M_bind in Hmut.
      destruct (get_ptr s key h1) as [[p h'] |] eqn:Hg; [| discriminate].
      apply get_ptr_inv in Hg as (_ & m' & Hm' & Hk). exists p. congruence. }
    split.
    + exact (mutate_read s c h1 key i e h2 p m m Hs1 Hp Hc1 Hp Hmut).
    + exact (mutate_read s s h1 key i e h2 p m m Hs1 Hp Hs1 Hp Hmut).
  - assert (∃ p, m !! key = Some (VPtr p)) as [p Hp].
    { unfold mutate_through, mbind, M_bind in Hmut.
      destruct (get_ptr c key h1) as [[p h'] |] eqn:Hg; [| discriminate].
      apply get_ptr_inv in Hg as (_ & m' & Hm' & Hk). exists p. congruence. }
    split.
    + exact (mutate_read c s h1 key i e h2 p m m Hc1 Hp Hs1 Hp Hmut).
    + exact (mutate_read c c h1 key i e h2 p m m Hc1 Hp Hc1 Hp Hmut).
Qed.

Lemma Copy_shares_aggregates_witness :
  ∃ h1 h2, Copy 0 lame_heap = Ok (1, h1)
         ∧ read_through 1 "a" 1 h1 = Ok ("Hai"%string, h1)
         ∧ mutate_through 0 "a" 1 "Noes" h1 = Ok (tt, h2)
         ∧ read_through 1 "a" 1 h2 = Ok ("Noes"%string, h2).
Proof.
  destruct (Copy 0 lame_heap) as [[c h1] | p] eqn:Hcopy; [| by vm_compute in Hcopy].
  assert (c = 1) as -> by (vm_compute in Hcopy; congruence).
  destruct (mutate_through 0 "a" 1 "Noes" h1) as [[[] h2] | p] eqn:Hmut.
  - exists h1, h2. split; [reflexivity |]. split.
    + vm_compute in Hcopy. injection Hcopy as <-. vm_compute. reflexivity.
    + split; [exact Hmut |].
      apply (proj1 (Copy_shares_aggregates 0 lame_heap 1 h1 "a" 1 "Noes" h2 Hcopy) Hmut).
  - exfalso. vm_compute in Hcopy. injection Hcopy as <-. vm_compute in Hmut. discriminate.
Defined.

End value_store.

(** [TestCopy] passes on the model: the lengths are 3 and 2, ["b"] of the
    copy is not ["FOO"], and the copy sees ["Noes"]. *)
Example TestCopy_passes :
  ∃ h, ValueStore.TestCopy empty_heap
       = Ok ((3, 2, Some (VString "This is the song that never ends"), "Noes"%string), h).
Proof.
  destruct (ValueStore.TestCopy empty_heap) as [[r h] | p] eqn:Hrun.
  - exists h. vm_compute in Hrun. congruence.
  - vm_compute in Hrun. discriminate.
Qed.

(** * Properties of the chain executor *)

Section executor.
Variables (reg : gmap string Route) (req : Request).
Implicit Types (c : Context) (s : Step) (steps pre rest : list Step)
  (tr : list Invocation) (hops : nat) (id : string).

#[local] Arguments bind_params : simpl never.

Lemma run_route_unfold hops id c :
  run_route hops reg req id c
  = match reg !! id with
    | None => halt (HaltedError (NotFound id)) c
    | Some r => run_steps req (rerouter hops reg req) (route_steps r) c
    end.
Proof. destruct hops; reflexivity. Qed.

Lemma after_after tr tr' (r : Run) : after tr (after tr' r) = after (tr ++ tr') r.
Proof. unfold after. cbn. by rewrite app_assoc. Qed.

(** The executor runs a prefix that advances and carries on with the rest. *)
Lemma run_steps_advances rr pre rest c c' tr :
  advances req pre c c' tr →
  run_steps req rr (pre ++ rest) c = after tr (run_steps req rr rest c').
Proof.
  induction 1 as [c | s pre cmd c c1 res c' tr Hop Hcmd _ IH
                    | s pre cmd c c1 res e c' tr Hop Hcmd _ IH].
  - cbn. by destruct (run_steps req rr rest c).
  - cbn. rewrite Hop, Hcmd, IH. by rewrite after_after.
  - cbn. rewrite Hop, Hcmd, IH. by rewrite after_after.
Qed.

Lemma advances_length pre c c' tr : advances req pre c c' tr → length tr = length pre.
Proof. induction 1; cbn; congruence. Qed.

(** The step at which a route stands once its prefix has advanced. *)
Lemma run_route_at hops id r pre s rest c c0 tr :
  reg !! id = Some r →
  route_steps r = pre ++ s :: rest →
  advances req pre c c0 tr →
  run_route hops reg req id c
  = after tr (run_steps req (rerouter hops reg req) (s :: rest) c0).
Proof.
  intros Hreg Hsteps Hadv.
  rewrite run_route_unfold, Hreg, Hsteps.
  by apply run_steps_advances.
Qed.

Lemma Context_Log_loggers prefix msg c n :
  loggers (Context_Log prefix msg c) !! n
  = (λ l, l ++ [(prefix, msg)]) <$> loggers c !! n.
Proof. cbn. by rewrite lookup_fmap. Qed.

Lemma store_if_any_loggers name v c : loggers (store_if_any name v c) = loggers c.
Proof. unfold store_if_any. by destruct (is_nil v). Qed.

Lemma store_if_any_values name v c :
  v ≠ VNil → values (store_if_any name v c) !! name = Some v.
Proof.
  intros Hv. unfold store_if_any. destruct v; try congruence; cbn; by rewrite lookup_insert_eq.
Qed.

(** C6: in a registered route with steps [A] stored under [x] and [B]
    stored under [y], where the single parameter [p] of [B] is bound to the
    context under key [x] and [A] completes with signal none, the execution
    invokes [A] and then [B]; [B] is invoked on a context that holds the
    result of [A] under [x], and the parameters it receives are exactly [p]
    bound to that result. *)
Theorem context_binding_receives_result (max_hops : nat) (id description : string)
    (A B : Command) (x y p : string) (paramsA : list ParamBinding)
    (dflt : option ContextValue) (c c1 : Context) (res : ContextValue) :
  reg !! id = Some
    {| route_description := description;
       route_steps :=
         [ {| step_op := Some A; step_name := x; step_params := paramsA |};
           {| step_op := Some B; step_name := y;
              step_params :=
                [ {| param_name := p;
                     param_from := [ {| src_kind := FromContext; src_key := x |} ];
                     param_default := dflt |} ] |} ] |} →
  A c (bind_params req c paramsA) = (c1, res, SigNone) →
  ∃ invA invB later,
    run_trace (HandleRequest max_hops reg req id c) = invA :: invB :: later
    ∧ inv_name invA = x ∧ inv_cxt invA = c
    ∧ inv_name invB = y
    ∧ Has (Context_Getter (inv_cxt invB)) x = (res, true)
    ∧ inv_params invB = {[ p := res ]}
    ∧ Has (Params_Getter (inv_params invB)) p = (res, true).
Proof.
  intros Hreg HA. unfold HandleRequest.
  rewrite run_route_unfold, Hreg. cbn.
  rewrite HA. cbn.
  destruct (B _ _) as [[c2 res2] sig2] eqn:HB. cbn.
  do 3 eexists. split; [reflexivity |]. cbn.
  assert (Hx : Context_Has (Context_Add x res c1) x = (res, true)).
  { unfold Context_Has. cbn. by rewrite lookup_insert_eq. }
  assert (Hp : bind_params req (Context_Add x res c1)
                 [ {| param_name := p;
                      param_from := [ {| src_kind := FromContext; src_key := x |} ];
                      param_default := dflt |} ] = {[ p := res ]}).
  { unfold bind_params, resolve. cbn. by rewrite Hx, insert_empty. }
  rewrite Hp. repeat split; try done.
  unfold Params_Has. by rewrite lookup_singleton_eq.
Qed.

(** C7: when a step of a route returns a RecoverableError signal (the steps
    before it having advanced), the error is appended exactly once to what
    each registered logger has received, and no logger is added or removed;
    the step's result, if there is one, is stored under its output name; the
    next step, if there is one, is invoked right after it, on that context;
    and the execution is the execution of the remaining steps: its outcome
    is theirs, so the recoverable error never reaches the caller (a route
    that ends there halts successfully). *)
Theorem recoverable_error_continues (hops : nat) (id : string) (r : Route)
    (pre : list Step) (s : Step) (rest : list Step) (cmd : Command)
    (c c0 c1 : Context) (tr : list Invocation) (res : ContextValue) (e : string) :
  reg !! id = Some r →
  route_steps r = pre ++ s :: rest →
  advances req pre c c0 tr →
  step_op s = Some cmd →
  cmd c0 (bind_params req c0 (step_params s)) = (c1, res, RecoverableError e) →
  ∃ c2,
    dom (loggers c2) = dom (loggers c1)
    ∧ (∀ n l, loggers c1 !! n = Some l →
              loggers c2 !! n = Some (l ++ [(recoverable_prefix, e)]))
    ∧ (res ≠ VNil → values c2 !! step_name s = Some res)
    ∧ run_route hops reg req id c
      = after (tr ++ [invocation req s c0])
          (run_steps req (rerouter hops reg req) rest c2)
    ∧ run_outcome (run_route hops reg req id c)
      = run_outcome (run_steps req (rerouter hops reg req) rest c2)
    ∧ (rest = [] → run_outcome (run_route hops reg req id c) = HaltedOk)
    ∧ (∀ s' rest', rest = s' :: rest' → is_Some (step_op s') →
         run_trace (run_route hops reg req id c) !! (length pre + 1)
         = Some (invocation req s' c2)).
Proof.
  intros Hreg Hsteps Hadv Hop Hcmd.
  exists (store_if_any (step_name s) res (Context_Log recoverable_prefix e c1)).
  set (c2 := store_if_any _ _ _).
  assert (Hrun : run_route hops reg req id c
                 = after (tr ++ [invocation req s c0])
                     (run_steps req (rerouter hops reg req) rest c2)).
  { rewrite (run_route_at hops id r pre s rest c c0 tr) by assumption.
    cbn. rewrite Hop. cbn. rewrite Hcmd. by rewrite after_after. }
  split; [| split; [| split; [| split; [| split; [| split]]]]].
  - subst c2. rewrite store_if_any_loggers. cbn. by rewrite dom_fmap_L.
  - intros n l Hn. subst c2.
    rewrite store_if_any_loggers, Context_Log_loggers, Hn. reflexivity.
  - intros Hres. by apply store_if_any_values.
  - exact Hrun.
  - by rewrite Hrun.
  - intros ->. by rewrite Hrun.
  - intros s' rest' -> [cmd' Hop'].
    rewrite Hrun. cbn. rewrite Hop'.
    destruct (cmd' _ _) as [[c3 res3] sig3]. cbn.
    rewrite <- (advances_length _ _ _ _ Hadv).
    rewrite <- app_assoc. rewrite lookup_app_r by lia.
    replace (length tr + 1 - length tr) with 1 by lia. reflexivity.
Qed.

(** C8: when a step of a route returns a FatalError signal (the steps before
    it having advanced), the execution halts there: the operations invoked
    are those of the earlier steps and of this step, none of a later one;
    the outcome is the failure carrying the very error the step returned;
    and the step's result is not stored. *)
Theorem fatal_error_halts (hops : nat) (id : string) (r : Route)
    (pre : list Step) (s : Step) (rest : list Step) (cmd : Command)
    (c c0 c1 : Context) (tr : list Invocation) (res : ContextValue) (e : string) :
  reg !! id = Some r →
  route_steps r = pre ++ s :: rest →
  advances req pre c c0 tr →
  step_op s = Some cmd →
  cmd c0 (bind_params req c0 (step_params s)) = (c1, res, FatalError e) →
  run_route hops reg req id c
  = {| run_outcome := HaltedError (Fatal e);
       run_cxt := c1;
       run_trace := tr ++ [invocation req s c0] |}
  ∧ length (run_trace (run_route hops reg req id c)) = length pre + 1.
Proof.
  intros Hreg Hsteps Hadv Hop Hcmd.
  assert (Hrun : run_route hops reg req id c
                 = {| run_outcome := HaltedError (Fatal e); run_cxt := c1;
                      run_trace := tr ++ [invocation req s c0] |}).
  { rewrite (run_route_at hops id r pre s rest c c0 tr) by assumption.
    cbn. rewrite Hop. cbn. rewrite Hcmd. reflexivity. }
  split; [exact Hrun |].
  rewrite Hrun. cbn. rewrite length_app. cbn.
  by rewrite (advances_length _ _ _ _ Hadv).
Qed.

End executor.

(** The sample routes run as the theorems say. *)

Lemma context_binding_receives_result_witness :
  ∃ invA invB later,
    run_trace (HandleRequest 8 sample_registry sample_request "GET /" sample_context)
    = invA :: invB :: later
    ∧ inv_name invA = "msg"%string ∧ inv_cxt invA = sample_context
    ∧ inv_name invB = "out"%string
    ∧ Has (Context_Getter (inv_cxt invB)) "msg" = (VString "Route GET / executed", true)
    ∧ inv_params invB = {[ "content"%string := VString "Route GET / executed" ]}
    ∧ Has (Params_Getter (inv_params invB)) "content"
      = (VString "Route GET / executed", true).
Proof.
  apply (context_binding_receives_result sample_registry sample_request 8
           "GET /" "The Homepage" MyMessage Flush "msg" "out" "content" [] None
           sample_context sample_context (VString "Route GET / executed")).
  - vm_compute. reflexivity.
  - reflexivity.
Defined.

Lemma recoverable_error_continues_witness :
  ∃ c2,
    dom (loggers c2) = dom (loggers sample_context)
    ∧ loggers c2 !! "foo"%string = Some [(recoverable_prefix, "disk almost full"%string)]
    ∧ loggers c2 !! "bar"%string = Some [(recoverable_prefix, "disk almost full"%string)]
    ∧ values c2 !! "try"%string = Some (VString "partial")
    ∧ run_outcome (run_route 8 sample_registry sample_request "GET /flaky" sample_context)
      = HaltedOk
    ∧ run_trace (run_route 8 sample_registry sample_request "GET /flaky" sample_context)
        !! 2
      = Some (invocation sample_request (step_of Flush "out" [content_from_msg]) c2).
Proof.
  edestruct (recoverable_error_continues sample_registry sample_request 8 "GET /flaky"
               {| route_description := "Recovers";
                  route_steps := [ step_of MyMessage "msg" [];
                                   step_of Flaky "try" [];
                                   step_of Flush "out" [content_from_msg] ] |}
               [step_of MyMessage "msg" []] (step_of Flaky "try" [])
               [step_of Flush "out" [content_from_msg]] Flaky sample_context)
    as (c2 & Hdom & Hlog & Hval & Hrun & Hout & _ & Hnext).
  - vm_compute. reflexivity.
  - reflexivity.
  - eapply adv_none; [reflexivity | reflexivity | apply adv_nil].
  - reflexivity.
  - reflexivity.
  - cbn [loggers Context_Add step_name step_of] in Hdom, Hlog, Hval.
    exists c2. split; [exact Hdom |].
    split; [apply (Hlog "foo"%string []); vm_compute; reflexivity |].
    split; [apply (Hlog "bar"%string []); vm_compute; reflexivity |].
    split; [apply Hval; discriminate |].
    split; [rewrite Hout; reflexivity |].
    apply (Hnext _ []); [reflexivity | by eexists].
Defined.

Lemma fatal_error_halts_witness :
  run_outcome (run_route 8 sample_registry sample_request "GET /broken" sample_context)
  = HaltedError (Fatal "boom")
  ∧ length (run_trace (run_route 8 sample_registry sample_request "GET /broken"
                         sample_context)) = 2.
Proof.
  edestruct (fatal_error_halts sample_registry sample_request 8 "GET /broken"
               {| route_description := "Halts";
                  route_steps := [ step_of MyMessage "msg" [];
                                   step_of Broken "try" [];
                                   step_of Flush "out" [content_from_msg] ] |}
               [step_of MyMessage "msg" []] (step_of Broken "try" [])
               [step_of Flush "out" [content_from_msg]] Broken sample_context)
    as [Hrun Hlen].
  - vm_compute. reflexivity.
  - reflexivity.
  - eapply adv_none; [reflexivity | reflexivity | apply adv_nil].
  - reflexivity.
  - reflexivity.
  - split; [by rewrite Hrun | exact Hlen].
Defined.

(** * Further properties of [getter.go] *)

Section getter_laws.
Implicit Types (source s : Getter) (key : string) (v : ContextValue)
  (g : KeyValueDatasource).

Lemma GettableDatasource_lawful g : lawful (GettableDatasource g).
Proof.
  intros key d. unfold has_key. cbn.
  unfold GettableDatasource_Get, GettableDatasource_Has.
  by destruct (Value g key).
Qed.

Lemma DefaultGetter_lawful val : lawful (DefaultGetter val).
Proof. intros key d. reflexivity. Qed.

(** A lawful Getter stores what its [Has] finds. *)
Lemma lawful_stores source key v :
  lawful source → Has source key = (v, true) → stores source key v.
Proof.
  intros Hlaw Hhas. split; [exact Hhas |].
  intros d. rewrite Hlaw. unfold has_key. by rewrite Hhas.
Qed.

Lemma lawful_miss source key (d : ContextValue) :
  lawful source → has_key source key = false → Get source key d = d.
Proof. intros Hlaw Hmiss. by rewrite Hlaw, Hmiss. Qed.


(** X2: a [GettableDatasource] cannot hold nil: its [Has] reports a key as
    found exactly when the datasource's value is not nil, a found value is
    the datasource's own and never nil, a miss comes with the nil value, and
    [Get] returns nil only for a missing key with a nil default. *)
Theorem GettableDatasource_hides_nil (g : KeyValueDatasource) (key : string) :
  (has_key (GettableDatasource g) key = true ↔ Value g key ≠ VNil)
  ∧ (∀ v, Has (GettableDatasource g) key = (v, true) ↔ v = Value g key ∧ v ≠ VNil)
  ∧ (has_key (GettableDatasource g) key = false ↔
       Has (GettableDatasource g) key = (VNil, false))
  ∧ (∀ d, Get (GettableDatasource g) key d = VNil ↔ Value g key = VNil ∧ d = VNil).
Proof.
  unfold has_key. cbn. unfold GettableDatasource_Get, GettableDatasource_Has.
  destruct (Value g key) eqn:Hv; cbn; repeat split;
    try (intros; congruence); try (intros [? ?]; congruence);
    try (intros [= ?]; congruence); try (intros [= <-]; split; congruence).
Qed.

(** Case analysis of a typed [Has] accessor on what [Has] returns. *)
Ltac typed_has_cases source key :=
  unfold HasString, HasBool, HasInt, HasInt32, HasInt64, HasUint64, HasFloat64,
    has_key in *;
  destruct (Has source key) as [[] []]; cbn in *.

(** X3: for every Getter and key, a typed [Has] accessor reports found
    exactly when the source's [Has] finds a value of that very dynamic type,
    and it then returns that value; whenever it reports not found, the value
    it returns is the zero value of the type. *)
Theorem typed_Has_exact (source : Getter) (key : string) :
  ((∀ x, HasString key source = (x, true) ↔ Has source key = (VString x, true))
   ∧ ((HasString key source).2 = false → HasString key source = (""%string, false)))
  ∧ (∀ d, (∀ x, HasBool key d source = (x, true) ↔ Has source key = (VBool x, true))
        ∧ ((HasBool key d source).2 = false → HasBool key d source = (false, false)))
  ∧ (∀ d, (∀ x, HasInt key d source = (x, true) ↔ Has source key = (VInt x, true))
        ∧ ((HasInt key d source).2 = false → HasInt key d source = (0%Z, false)))
  ∧ (∀ d, (∀ x, HasInt32 key d source = (x, true) ↔ Has source key = (VInt32 x, true))
        ∧ ((HasInt32 key d source).2 = false → HasInt32 key d source = (0%Z, false)))
  ∧ (∀ d, (∀ x, HasInt64 key d source = (x, true) ↔ Has source key = (VInt64 x, true))
        ∧ ((HasInt64 key d source).2 = false → HasInt64 key d source = (0%Z, false)))
  ∧ (∀ d, (∀ x, HasUint64 key d source = (x, true) ↔ Has source key = (VUint64 x, true))
        ∧ ((HasUint64 key d source).2 = false → HasUint64 key d source = (0%Z, false)))
  ∧ (∀ d, (∀ x, HasFloat64 key d source = (x, true)
               ↔ Has source key = (VFloat64 x, true))
        ∧ ((HasFloat64 key d source).2 = false
           → HasFloat64 key d source = (float_zero, false))).
Proof.
  repeat apply conj; intros; try apply conj; intros;
    typed_has_cases source key;
    try reflexivity; try discriminate; try (split; intros; congruence); congruence.
Qed.

(** X4: the typed [Has] accessors exclude one another: for every Getter and
    key at most one of the seven reports found; exactly one does when the
    source has the key with a value of one of the seven accessor types, and
    none does when the key is missing or the value is of no such type. *)
Theorem typed_Has_exclusive (source : Getter) (key : string) :
  found_count key source ≤ 1
  ∧ (found_count key source = 1 ↔
       has_key source key = true
       ∧ ∃ t, dyn_type (Has source key).1 = Some t ∧ t ∈ accessor_types).
Proof.
  unfold found_count, typed_found, accessor_types.
  typed_has_cases source key; cbn; (split; [lia |]); split.
  all: try (intros _; split; [reflexivity |]; eexists; split;
            [reflexivity | set_solver]).
  all: try (intros Hcount; discriminate Hcount).
  all: try (intros _; reflexivity).
  all: intros [Hk (t & Ht & Hin)]; try discriminate.
  all: injection Ht as Ht; exfalso; revert Hin; rewrite <- Ht.
  all: rewrite !elem_of_cons, elem_of_nil; intuition discriminate.
Qed.

(** X5: a stored value of the requested dynamic type comes back through
    both accessors of that type: the typed [Get] returns it whatever default
    is passed, and the typed [Has] returns it with [found = true]. *)
Theorem typed_accessors_match (source : Getter) (key : string) :
  (∀ x, stores source key (VString x) →
     (∀ d, GetString key d source = Ok x) ∧ HasString key source = (x, true))
  ∧ (∀ x, stores source key (VBool x) →
     (∀ d, GetBool key d source = Ok x) ∧ (∀ d, HasBool key d source = (x, true)))
  ∧ (∀ x, stores source key (VInt x) →
     (∀ d, GetInt key d source = Ok x) ∧ (∀ d, HasInt key d source = (x, true)))
  ∧ (∀ x, stores source key (VInt32 x) →
     (∀ d, GetInt32 key d source = Ok x) ∧ (∀ d, HasInt32 key d source = (x, true)))
  ∧ (∀ x, stores source key (VInt64 x) →
     (∀ d, GetInt64 key d source = Ok x) ∧ (∀ d, HasInt64 key d source = (x, true)))
  ∧ (∀ x, stores source key (VUint64 x) →
     (∀ d, GetUint64 key d source = Ok x) ∧ (∀ d, HasUint64 key d source = (x, true)))
  ∧ (∀ x, stores source key (VFloat64 x) →
     (∀ d, GetFloat64 key d source = Ok x)
     ∧ (∀ d, HasFloat64 key d source = (x, true))).
Proof.
  repeat apply conj; intros x [Hhas Hget]; split; intros;
    unfold GetString, GetBool, GetInt, GetInt32, GetInt64, GetUint64, GetFloat64,
      HasString, HasBool, HasInt, HasInt32, HasInt64, HasUint64, HasFloat64;
    rewrite ?Hget, ?Hhas; reflexivity.
Qed.

Lemma typed_accessors_match_witness :
  stores (GettableDatasource mixed_source) "port" (VInt 8080)
  ∧ GetInt "port" 80 (GettableDatasource mixed_source) = Ok 8080%Z
  ∧ HasInt "port" 80 (GettableDatasource mixed_source) = (8080%Z, true).
Proof.
  assert (Hst : stores (GettableDatasource mixed_source) "port" (VInt 8080)).
  { split; [reflexivity | intros d; reflexivity]. }
  split; [exact Hst |].
  destruct (typed_accessors_match (GettableDatasource mixed_source) "port")
    as (_ & _ & Hint & _).
  destruct (Hint _ Hst) as [Hget Hhas]. split; [apply Hget | apply Hhas].
Defined.

(** X6: on a Getter whose [Get] agrees with its [Has], each typed [Get]
    accessor is determined by the matching typed [Has] accessor: it returns
    the supplied default when the key is missing, the typed value when the
    typed [Has] finds one, and panics in the one remaining case, a key that
    is present with a value of another dynamic type. *)
Theorem typed_Get_by_typed_Has (source : Getter) (key : string) :
  lawful source →
  (∀ d, GetString key d source
        = typed_Get_outcome TString source key d (HasString key source))
  ∧ (∀ d, GetBool key d source
          = typed_Get_outcome TBool source key d (HasBool key d source))
  ∧ (∀ d, GetInt key d source
          = typed_Get_outcome TInt source key d (HasInt key d source))
  ∧ (∀ d, GetInt32 key d source
          = typed_Get_outcome TInt32 source key d (HasInt32 key d source))
  ∧ (∀ d, GetInt64 key d source
          = typed_Get_outcome TInt64 source key d (HasInt64 key d source))
  ∧ (∀ d, GetUint64 key d source
          = typed_Get_outcome TUint64 source key d (HasUint64 key d source))
  ∧ (∀ d, GetFloat64 key d source
          = typed_Get_outcome TFloat64 source key d (HasFloat64 key d source)).
Proof.
  intros Hlaw. repeat apply conj; intros d;
    unfold GetString, GetBool, GetInt, GetInt32, GetInt64, GetUint64, GetFloat64;
    rewrite Hlaw; unfold typed_Get_outcome;
    typed_has_cases source key; reflexivity.
Qed.

Lemma typed_Get_by_typed_Has_witness :
  lawful (GettableDatasource mixed_source)
  ∧ GetString "name" "anon" (GettableDatasource mixed_source) = Ok "cookoo"%string
  ∧ GetString "nick" "anon" (GettableDatasource mixed_source) = Ok "anon"%string
  ∧ GetString "port" "anon" (GettableDatasource mixed_source)
    = Panic (InterfaceConversion (Some TInt) TString).
Proof.
  pose proof (GettableDatasource_lawful mixed_source) as Hlaw.
  split; [exact Hlaw |].
  split; [| split].
  - rewrite (proj1 (typed_Get_by_typed_Has _ "name" Hlaw)). reflexivity.
  - rewrite (proj1 (typed_Get_by_typed_Has _ "nick" Hlaw)). reflexivity.
  - rewrite (proj1 (typed_Get_by_typed_Has _ "port" Hlaw)). reflexivity.
Defined.

(** ** Further properties of [GetFromFirst] *)

(** X7: whatever the sources, the Getter that [GetFromFirst] returns has
    the key: its [Has] reports the returned value as found. *)
Theorem GetFromFirst_result_has_key (key : string) (d : ContextValue)
    (sources : list Getter) :
  Has (GetFromFirst key d sources).2 key = ((GetFromFirst key d sources).1, true).
Proof.
  induction sources as [| s rest IH]; [reflexivity |].
  cbn. destruct (Has s key) as [v [|]] eqn:Hs; [exact Hs | exact IH].
Qed.



Lemma any_hit_false key l : any_hit key l = false ↔ all_miss key l.
Proof.
  unfold any_hit. induction l as [| g l IH]; cbn.
  - split; [constructor | done].
  - rewrite orb_false_iff, IH, Forall_cons. done.
Qed.

(** X9: searching a concatenation: when some source of the first list has
    the key the second list is never consulted and the result is that of the
    first list alone; otherwise the result is that of the second list. *)
Theorem GetFromFirst_app (key : string) (d : ContextValue) (l1 l2 : list Getter) :
  GetFromFirst key d (l1 ++ l2)
  = (if any_hit key l1 then GetFromFirst key d l1 else GetFromFirst key d l2)
  ∧ (any_hit key l1 = false ↔ all_miss key l1).
Proof.
  split; [| apply any_hit_false].
  induction l1 as [| s l1 IH]; [reflexivity |].
  cbn. unfold has_key. destruct (Has s key) as [v [|]]; cbn; [reflexivity | exact IH].
Qed.

(** X10: the default of [GetFromFirst] behaves as a last source that always
    has the key: appending a [DefaultGetter] on the default gives the same
    value, whatever default is then passed; and once a [DefaultGetter]
    stands in the list, neither the sources after it nor the default
    argument can affect the result. *)
Theorem GetFromFirst_default_is_last_source (key : string) (d d' : ContextValue)
    (sources : list Getter) :
  (GetFromFirst key d' (sources ++ [DefaultGetter d])).1
  = (GetFromFirst key d sources).1
  ∧ (∀ val post post',
       GetFromFirst key d (sources ++ DefaultGetter val :: post)
       = GetFromFirst key d' (sources ++ DefaultGetter val :: post')).
Proof.
  split.
  - induction sources as [| s rest IH]; [reflexivity |].
    cbn. destruct (Has s key) as [v [|]]; [reflexivity | exact IH].
  - intros val post post'.
    induction sources as [| s rest IH]; [reflexivity |].
    cbn. destruct (Has s key) as [v [|]]; [reflexivity | exact IH].
Qed.

(** X11: over sources whose [Get] agrees with their [Has], the value of
    [GetFromFirst] is the chain of defaults: each source's [Get] is given,
    as its default, the answer of the sources after it, the last one the
    default itself. In particular, with one source it is that source's
    [Get]. *)
Theorem GetFromFirst_chains_Get (key : string) (d : ContextValue)
    (sources : list Getter) :
  Forall lawful sources →
  (GetFromFirst key d sources).1 = foldr (λ s acc, Get s key acc) d sources.
Proof.
  induction 1 as [| s rest Hlaw _ IH]; [reflexivity |].
  cbn. rewrite Hlaw, <- IH. unfold has_key.
  by destruct (Has s key) as [v [|]].
Qed.

Lemma GetFromFirst_chains_Get_witness :
  Forall lawful [GettableDatasource empty_source; GettableDatasource mixed_source;
                 DefaultGetter (VString "last")]
  ∧ (GetFromFirst "name" (VString "dflt")
       [GettableDatasource empty_source; GettableDatasource mixed_source;
        DefaultGetter (VString "last")]).1
    = Get (GettableDatasource empty_source) "name"
        (Get (GettableDatasource mixed_source) "name"
           (Get (DefaultGetter (VString "last")) "name" (VString "dflt"))).
Proof.
  assert (Hlaw : Forall lawful [GettableDatasource empty_source;
                                GettableDatasource mixed_source;
                                DefaultGetter (VString "last")]).
  { repeat constructor; (apply GettableDatasource_lawful || apply DefaultGetter_lawful). }
  split; [exact Hlaw |].
  exact (GetFromFirst_chains_Get "name" (VString "dflt") _ Hlaw).
Defined.

(** X12: over sources whose [Get] agrees with their [Has], the Getter that
    [GetFromFirst] returns is again such a Getter, and its [Get] for the key
    returns the value [GetFromFirst] returned, whatever default it is then
    given: reading the returned Getter again can never yield a caller's
    default. *)
Theorem GetFromFirst_result_lawful (key : string) (d : ContextValue)
    (sources : list Getter) :
  Forall lawful sources →
  lawful (GetFromFirst key d sources).2
  ∧ (∀ d', Get (GetFromFirst key d sources).2 key d' = (GetFromFirst key d sources).1).
Proof.
  intros Hall.
  assert (Hlaw : lawful (GetFromFirst key d sources).2).
  { induction Hall as [| s rest Hs _ IH]; [apply DefaultGetter_lawful |].
    cbn. by destruct (Has s key) as [v [|]]. }
  split; [exact Hlaw |].
  clear Hlaw. intros d'.
  induction Hall as [| s rest Hs _ IH]; [reflexivity |].
  cbn. destruct (Has s key) as [v [|]] eqn:Hhas; [| exact IH].
  cbn. rewrite Hs. unfold has_key. by rewrite Hhas.
Qed.

Lemma GetFromFirst_result_lawful_witness :
  Forall lawful [GettableDatasource empty_source; GettableDatasource mixed_source]
  ∧ Get (GetFromFirst "port" (VInt 80)
           [GettableDatasource empty_source; GettableDatasource mixed_source]).2
      "port" (VInt 0)
    = VInt 8080
  ∧ Get (GetFromFirst "host" (VString "localhost")
           [GettableDatasource empty_source; GettableDatasource mixed_source]).2
      "host" (VString "example.org")
    = VString "localhost".
Proof.
  assert (Hlaw : Forall lawful [GettableDatasource empty_source;
                                GettableDatasource mixed_source]).
  { repeat constructor; apply GettableDatasource_lawful. }
  split; [exact Hlaw |]. split.
  - exact (proj2 (GetFromFirst_result_lawful "port" (VInt 80) _ Hlaw) (VInt 0)).
  - exact (proj2 (GetFromFirst_result_lawful "host" (VString "localhost") _ Hlaw)
             (VString "example.org")).
Defined.

End getter_laws.
